(** * TinyRayTracer: a shallow embedding of the intersection and shading core

    The development follows [libs/Sphere.h], [libs/Light.h] and [Main.cpp].
    The C++ code computes on [float]; the embedding is written once over an
    interface of float operations ([FloatOps]), so that what depends only on
    the control flow holds of any arithmetic, and is read at IEEE-754
    binary32, built on the Standard Library's [SpecFloat], which
    evaluates. *)

From Stdlib Require Import ZArith List Bool Lia.
From Stdlib Require Import Floats.SpecFloat.
Import ListNotations.

Set Implicit Arguments.

(** ** The arithmetic the program relies on *)

(** Operations of C++ [float] used by the sources, together with the few
    places where a [double] or an [int] meets a [float]. *)
Class FloatOps (F : Type) : Type := {
  fadd : F -> F -> F;
  fsub : F -> F -> F;
  fmul : F -> F -> F;
  fdiv : F -> F -> F;
  fopp : F -> F;
  (** [sqrtf] *)
  fsqrt : F -> F;
  (** [fabs] *)
  fabs : F -> F;
  (** [a < b] on floats; [a > b] is written [fltb b a]. *)
  fltb : F -> F -> bool;
  (** implicit conversion of an [int] literal or value to [float] *)
  of_int : Z -> F;
  (** the conversion [int(x)]: truncation toward zero *)
  to_int : F -> Z;
  (** a [float] literal with decimal value [n/d], such as [0.5f] *)
  flit : Z -> Z -> F;
  (** [std::numeric_limits<float>::max()] *)
  FLT_MAX : F;
  (** C++ [double], where the sources mix it with [float] *)
  double : Type;
  (** a [double] literal with decimal value [n/d], such as [1e-3] *)
  dlit : Z -> Z -> double;
  (** promotion of a [float] operand to [double] *)
  to_double : F -> double;
  (** conversion of a [double] to [float] *)
  of_double : double -> F;
  (** [a < b] on doubles *)
  dltb : double -> double -> bool
}.

Declare Scope float_scope.
Delimit Scope float_scope with flt.
Notation "a + b" := (fadd a b) : float_scope.
Notation "a - b" := (fsub a b) : float_scope.
Notation "a * b" := (fmul a b) : float_scope.
Notation "a / b" := (fdiv a b) : float_scope.
Notation "- a" := (fopp a) : float_scope.
Notation "a <? b" := (fltb a b) : float_scope.
Notation "a >? b" := (fltb b a) : float_scope.

(** ** Geometry: vectors *)

Section Geometry.
Context {F : Type} {ops : FloatOps F}.
Local Open Scope float_scope.

(** Modelled from the spec: [libs/Geometry.h] ([Vec3f], [Vec4f] and their
    operators) is not among the sources.  The spec describes 3D and 4D
    float vectors with dot product, scaling, addition, subtraction,
    negation, normalization and Euclidean norm; the operators below are
    the component-wise ones, a default-constructed vector is zero. *)
Record Vec3f : Type := mkVec3f { x : F; y : F; z : F }.

(** Modelled from the spec: the four albedo weights
    [diffuse, specular, reflection, refraction], read by index. *)
Record Vec4f : Type := mkVec4f { a0 : F; a1 : F; a2 : F; a3 : F }.

(** Modelled from the spec: [Vec3f()] of the missing [Geometry.h], the
    zero vector. *)
Definition Vec3f_zero : Vec3f := mkVec3f (of_int 0) (of_int 0) (of_int 0).

(** Modelled from the spec: [lhs + rhs] of the missing [Geometry.h]. *)
Definition vadd (u v : Vec3f) : Vec3f :=
  mkVec3f (x u + x v) (y u + y v) (z u + z v).

(** Modelled from the spec: [lhs - rhs] of the missing [Geometry.h]. *)
Definition vsub (u v : Vec3f) : Vec3f :=
  mkVec3f (x u - x v) (y u - y v) (z u - z v).

(** Modelled from the spec: [-v] of the missing [Geometry.h]. *)
Definition vneg (v : Vec3f) : Vec3f := mkVec3f (- x v) (- y v) (- z v).

(** Modelled from the spec: [v * k] of the missing [Geometry.h], a vector
    scaled by a float. *)
Definition vscale (v : Vec3f) (k : F) : Vec3f :=
  mkVec3f (x v * k) (y v * k) (z v * k).

(** Modelled from the spec: [lhs * rhs] of the missing [Geometry.h] on two
    vectors, the dot product. *)
Definition dot (u v : Vec3f) : F := x u * x v + y u * y v + z u * z v.

(** Modelled from the spec: [v.norm()] of the missing [Geometry.h], the
    Euclidean norm. *)
Definition norm (v : Vec3f) : F := fsqrt (dot v v).

(** Modelled from the spec: [v.normalize()] of the missing [Geometry.h];
    the vector is scaled by the inverse of its norm, so the zero vector
    gives NaN components on floats. *)
Definition normalize (v : Vec3f) : Vec3f := vscale v (of_int 1 / norm v).

(** [std::min] and [std::max] as the C++ standard defines them. *)
Definition fmin (a b : F) : F := if b <? a then b else a.
Definition fmax (a b : F) : F := if a <? b then b else a.

(** Modelled from the spec: the scalar of [hitInfo.normal * 1e-3].  The
    literal is a [double]; the missing [Geometry.h] decides how it meets
    the [float] components, and it is taken here converted to [float]. *)
Definition bias : F := of_double (dlit 1 1000).
End Geometry.

Arguments Vec3f F : clear implicits.
Arguments Vec4f F : clear implicits.

(** ** [libs/Sphere.h] and [libs/Light.h] *)

Section Scene.
Context {F : Type} {ops : FloatOps F}.
Local Open Scope float_scope.

Record Material : Type := mkMaterial {
  m_RefractiveIndex : F;
  m_Albedo : Vec4f F;
  m_DiffuseColor : Vec3f F;
  m_SpecularExponent : F
}.

(** [Material()] *)
Definition Material_default : Material :=
  mkMaterial (of_int 0)
             (mkVec4f (flit 1 1) (flit 0 1) (flit 0 1) (flit 0 1))
             Vec3f_zero (of_int 0).

Record Sphere : Type := mkSphere {
  m_Center : Vec3f F;
  m_Radius : F;
  m_Material : Material
}.

Record Light : Type := mkLight {
  m_Position : Vec3f F;
  m_Intensity : F
}.

(** [Sphere::RayIntersect]: the [bool] result and the out-parameter [t]
    become an [option]; [None] is [return false], with [t] untouched. *)
Definition RayIntersect (s : Sphere) (origin direction : Vec3f F) : option F :=
  let xa := vsub origin (m_Center s) in
  let b := dot xa direction in
  let delta := (b * b) - (dot xa xa) + (m_Radius s * m_Radius s) in
  if delta <? of_int 0 then None
  else
    let s1 := - b - fsqrt delta in
    let s2 := - b + fsqrt delta in
    if s1 >? of_int 0 then Some s1
    else if s2 >? of_int 0 then Some s2
    else None.
End Scene.

Arguments Material F : clear implicits.
Arguments Sphere F : clear implicits.
Arguments Light F : clear implicits.

(** ** [Main.cpp] *)

Section Main.
Context {F : Type} {ops : FloatOps F}.
Local Open Scope float_scope.

Record Hit : Type := mkHit {
  point : Vec3f F;
  normal : Vec3f F;
  material : Material F
}.

(** [Hit()] *)
Definition Hit_default : Hit := mkHit Vec3f_zero Vec3f_zero Material_default.

Definition Reflect (direction normal : Vec3f F) : Vec3f F :=
  vsub direction (vscale (vscale normal (flit 2 1)) (dot direction normal)).

(** Snell's law.  The three locals [n], [r], [c] are reassigned together
    under [c < 0]. *)
Definition Refract (direction normal : Vec3f F) (refractiveIndex : F) : Vec3f F :=
  let n := normal in
  let r := flit 1 1 / refractiveIndex in
  let c := - (dot n direction) in
  let '(n, r, c) :=
    if c <? of_int 0 then (vneg n, refractiveIndex, - c) else (n, r, c) in
  let k := (r * r) * (of_int 1 - (c * c)) in
  let s := fsqrt (flit 1 1 - k) in
  vadd (vscale direction r) (vscale n ((r * c) - s)).

(** *** [SceneIntersect] *)

(** One iteration of the loop over the spheres; the state is the pair of
    [spheresDistance] and the out-parameter [hitInfo]. *)
Definition sphere_step (origin direction : Vec3f F)
    (st : F * Hit) (s : Sphere F) : F * Hit :=
  let '(spheresDistance, hitInfo) := st in
  match RayIntersect s origin direction with
  | Some t =>
      if t <? spheresDistance then
        let p := vadd origin (vscale direction t) in
        (t, mkHit p (normalize (vsub p (m_Center s))) (m_Material s))
      else st
  | None => st
  end.

Definition sphere_loop (origin direction : Vec3f F)
    (spheres : list (Sphere F)) (hitInfo : Hit) : F * Hit :=
  fold_left (sphere_step origin direction) spheres (FLT_MAX, hitInfo).

(** The guard [fabs(direction.y) > 1e-3]; the literal is a [double], so
    the comparison is made in [double]. *)
Definition plane_guard (direction : Vec3f F) : bool :=
  dltb (dlit 1 1000) (to_double (fabs (y direction))).

(** [d] and [p] of the checkerboard branch. *)
Definition plane_d (origin direction : Vec3f F) : F :=
  (- (y origin + flit 4 1)) / y direction.

Definition plane_p (origin direction : Vec3f F) : Vec3f F :=
  vadd origin (vscale direction (plane_d origin direction)).

(** The condition of the inner [if] of the checkerboard branch. *)
Definition plane_accept (origin direction : Vec3f F) (spheresDistance : F) : bool :=
  let d := plane_d origin direction in
  let p := plane_p origin direction in
  (d >? of_int 0) && (fabs (x p) <? of_int 10) && (z p <? of_int (-10))
    && (z p >? of_int (-30)) && (d <? spheresDistance).

Definition white : Vec3f F := mkVec3f (flit 1 1) (flit 1 1) (flit 1 1).
Definition pale_orange : Vec3f F := mkVec3f (flit 1 1) (flit 7 10) (flit 3 10).

(** The colour [c] of the tile under [p]. *)
Definition tile_color (p : Vec3f F) : Vec3f F :=
  let i := Z.add (to_int (flit 5 10 * x p + of_int 1000))
                 (to_int (flit 5 10 * z p)) in
  if negb (Z.eqb (Z.land i 1) 0) then white else pale_orange.

(** The assignment [hitInfo.material.m_DiffuseColor = ...]: the other
    three fields of the material keep their value. *)
Definition set_DiffuseColor (m : Material F) (c : Vec3f F) : Material F :=
  mkMaterial (m_RefractiveIndex m) (m_Albedo m) c (m_SpecularExponent m).

(** The checkerboard branch, entered under [plane_guard]: it returns
    [checkerboardDistance] and [hitInfo]. *)
Definition checkerboard (origin direction : Vec3f F)
    (spheresDistance : F) (hitInfo : Hit) : F * Hit :=
  let d := plane_d origin direction in
  let p := plane_p origin direction in
  if plane_accept origin direction spheresDistance then
    let c := tile_color p in
    (d, mkHit p (mkVec3f (of_int 0) (of_int 1) (of_int 0))
              (set_DiffuseColor (material hitInfo) (vscale c (flit 3 10))))
  else (FLT_MAX, hitInfo).

(** The [bool] result paired with the final value of [hitInfo]. *)
Definition SceneIntersect (origin direction : Vec3f F)
    (spheres : list (Sphere F)) (hitInfo : Hit) : bool * Hit :=
  let '(spheresDistance, hitInfo) := sphere_loop origin direction spheres hitInfo in
  let '(checkerboardDistance, hitInfo) :=
    if plane_guard direction
    then checkerboard origin direction spheresDistance hitInfo
    else (FLT_MAX, hitInfo) in
  (fmin spheresDistance checkerboardDistance <? of_int 1000, hitInfo).

(** *** [CastRay] *)

(** [powf] of the C library, taken as given. *)
Variable powf : F -> F -> F.

(** The origin of a secondary ray leaving [hitInfo.point] along [dir]:
    the point moved by [1e-3] along the normal, on the side [dir] points
    to.  The source writes this expression out for the reflected, the
    refracted and the shadow ray. *)
Definition offset_origin (dir : Vec3f F) (hitInfo : Hit) : Vec3f F :=
  if dot dir (normal hitInfo) <? of_int 0
  then vsub (point hitInfo) (vscale (normal hitInfo) bias)
  else vadd (point hitInfo) (vscale (normal hitInfo) bias).

(** The shadow test of one light: the condition under which the loop
    body runs [continue]. *)
Definition occluded (spheres : list (Sphere F)) (hitInfo : Hit) (l : Light F) : bool :=
  let lightDirection := normalize (vsub (m_Position l) (point hitInfo)) in
  let lightDistance := norm (vsub (m_Position l) (point hitInfo)) in
  let shadowOrigin := offset_origin lightDirection hitInfo in
  let '(hit, shaddowInfo) :=
    SceneIntersect shadowOrigin lightDirection spheres Hit_default in
  hit && (norm (vsub (point shaddowInfo) shadowOrigin) <? lightDistance).

(** One iteration of the loop over the lights; the state is the pair
    [(diffuseLightIntensity, specularLightIntensity)]. *)
Definition light_step (direction : Vec3f F) (spheres : list (Sphere F))
    (hitInfo : Hit) (acc : F * F) (l : Light F) : F * F :=
  let '(diffuseLightIntensity, specularLightIntensity) := acc in
  let lightDirection := normalize (vsub (m_Position l) (point hitInfo)) in
  if occluded spheres hitInfo l then acc
  else
    let reflectedLight := Reflect lightDirection (normal hitInfo) in
    let diffuseFactor :=
      dot lightDirection (normal hitInfo)
      / (norm lightDirection * norm (normal hitInfo)) in
    (diffuseLightIntensity + m_Intensity l * fmax (flit 0 1) diffuseFactor,
     specularLightIntensity
     + m_Intensity l * powf (fmax (flit 0 1) (dot reflectedLight direction))
                            (m_SpecularExponent (material hitInfo))).

Definition light_loop (direction : Vec3f F) (spheres : list (Sphere F))
    (lights : list (Light F)) (hitInfo : Hit) : F * F :=
  fold_left (light_step direction spheres hitInfo) lights (flit 0 1, flit 0 1).

(** [Vec3f(0.2, 0.5, 0.8)]: three [double] literals stored as [float]. *)
Definition background : Vec3f F :=
  mkVec3f (of_double (dlit 2 10)) (of_double (dlit 5 10)) (of_double (dlit 8 10)).

(** The body of the [if] of [CastRay], given the two recursive results. *)
Definition shade (direction : Vec3f F) (spheres : list (Sphere F))
    (lights : list (Light F)) (hitInfo : Hit)
    (reflectColor refractColor : Vec3f F) : Vec3f F :=
  let '(diffuseLightIntensity, specularLightIntensity) :=
    light_loop direction spheres lights hitInfo in
  let m := material hitInfo in
  let diffuseComp :=
    vscale (vscale (m_DiffuseColor m) (a0 (m_Albedo m))) diffuseLightIntensity in
  let specularComp :=
    vscale (vscale white (a1 (m_Albedo m))) specularLightIntensity in
  let reflectComp := vscale reflectColor (a2 (m_Albedo m)) in
  let refractComp := vscale refractColor (a3 (m_Albedo m)) in
  vadd (vadd (vadd diffuseComp specularComp) reflectComp) refractComp.

(** [CastRay] recurses only under [depth < 5], each time at [depth + 1];
    [fuel] counts the levels that remain, and [CastRay] starts it at
    [5 - depth], so that it reaches [0] exactly when [depth < 5] fails. *)
Fixpoint CastRay_rec (fuel : nat) (origin direction : Vec3f F)
    (spheres : list (Sphere F)) (lights : list (Light F)) (depth : nat)
    : Vec3f F :=
  match fuel with
  | O => background
  | S fuel' =>
      let '(hit, hitInfo) := SceneIntersect origin direction spheres Hit_default in
      if (depth <? 5)%nat && hit then
        let reflectDirection := normalize (Reflect direction (normal hitInfo)) in
        let reflectOrigin := offset_origin reflectDirection hitInfo in
        let reflectColor :=
          CastRay_rec fuel' reflectOrigin reflectDirection spheres lights (depth + 1) in
        let refractDirection :=
          normalize (Refract direction (normal hitInfo)
                             (m_RefractiveIndex (material hitInfo))) in
        let refractOrigin := offset_origin refractDirection hitInfo in
        let refractColor :=
          CastRay_rec fuel' refractOrigin refractDirection spheres lights (depth + 1) in
        shade direction spheres lights hitInfo reflectColor refractColor
      else background
  end.

Definition CastRay (origin direction : Vec3f F)
    (spheres : list (Sphere F)) (lights : list (Light F)) (depth : nat)
    : Vec3f F :=
  CastRay_rec (5 - depth) origin direction spheres lights depth.

(** *** [Render]: the value written for a colour channel *)

(** The operand of the [char] conversion in the output loop of [Render],
    [255 * std::max(0.0f, std::min(1.0f, c))], for a channel [c] of a
    framebuffer entry; [clamped] is its second factor. *)
Definition clamped (c : F) : F := fmax (flit 0 1) (fmin (flit 1 1) c).

Definition channel (c : F) : F := of_int 255 * clamped c.

(** *** The scene of [main] *)

(** A [double] literal passed where a [float] is expected. *)
Definition dbl (n d : Z) : F := of_double (dlit n d).

Definition ivory : Material F :=
  mkMaterial (dbl 1 1) (mkVec4f (dbl 6 10) (dbl 3 10) (dbl 1 10) (dbl 0 1))
             (mkVec3f (dbl 4 10) (dbl 4 10) (dbl 3 10)) (dbl 50 1).
Definition glass : Material F :=
  mkMaterial (dbl 15 10) (mkVec4f (dbl 0 1) (dbl 5 10) (dbl 1 10) (dbl 8 10))
             (mkVec3f (dbl 6 10) (dbl 7 10) (dbl 8 10)) (dbl 125 1).
Definition redRubber : Material F :=
  mkMaterial (dbl 1 1) (mkVec4f (dbl 9 10) (dbl 1 10) (dbl 0 1) (dbl 0 1))
             (mkVec3f (dbl 3 10) (dbl 1 10) (dbl 1 10)) (dbl 10 1).
Definition mirror : Material F :=
  mkMaterial (dbl 1 1) (mkVec4f (dbl 0 1) (dbl 10 1) (dbl 8 10) (dbl 0 1))
             (mkVec3f (dbl 1 1) (dbl 1 1) (dbl 1 1)) (dbl 1425 1).

Definition main_spheres : list (Sphere F) :=
  [ mkSphere (mkVec3f (dbl (-3) 1) (dbl 0 1) (dbl (-16) 1)) (of_int 2) ivory;
    mkSphere (mkVec3f (dbl (-1) 1) (dbl (-15) 10) (dbl (-12) 1)) (of_int 2) glass;
    mkSphere (mkVec3f (dbl 15 10) (dbl (-5) 10) (dbl (-18) 1)) (of_int 3) redRubber;
    mkSphere (mkVec3f (dbl 7 1) (dbl 5 1) (dbl (-18) 1)) (of_int 4) mirror ].

Definition main_lights : list (Light F) :=
  [ mkLight (mkVec3f (dbl (-20) 1) (dbl 20 1) (dbl 20 1)) (dbl 15 10);
    mkLight (mkVec3f (dbl 30 1) (dbl 50 1) (dbl (-25) 1)) (dbl 18 10);
    mkLight (mkVec3f (dbl 30 1) (dbl 20 1) (dbl 30 1)) (dbl 17 10) ].
End Main.

Arguments Hit F : clear implicits.

(** ** Vocabulary of the specification *)

Section Specification.
Context {F : Type} {ops : FloatOps F}.
Local Open Scope float_scope.

(** The quantities [RayIntersect] computes, named as in the source. *)
Definition ray_b (s : Sphere F) (origin direction : Vec3f F) : F :=
  dot (vsub origin (m_Center s)) direction.

Definition ray_delta (s : Sphere F) (origin direction : Vec3f F) : F :=
  let xa := vsub origin (m_Center s) in
  (ray_b s origin direction * ray_b s origin direction) - dot xa xa
  + (m_Radius s * m_Radius s).

Definition ray_s1 (s : Sphere F) (origin direction : Vec3f F) : F :=
  - ray_b s origin direction - fsqrt (ray_delta s origin direction).

Definition ray_s2 (s : Sphere F) (origin direction : Vec3f F) : F :=
  - ray_b s origin direction + fsqrt (ray_delta s origin direction).

(** The hit data the sphere loop stores for sphere [s] at parameter [t]. *)
Definition sphere_hit (origin direction : Vec3f F) (s : Sphere F) (t : F) : Hit F :=
  let p := vadd origin (vscale direction t) in
  mkHit p (normalize (vsub p (m_Center s))) (m_Material s).

(** The parameters at which the ray meets the spheres, in scene order. *)
Definition sphere_hits (origin direction : Vec3f F) (spheres : list (Sphere F)) : list F :=
  flat_map (fun s => match RayIntersect s origin direction with
                     | Some t => [t]
                     | None => []
                     end) spheres.

(** The nearest sphere-hit distance, [FLT_MAX] when there is none. *)
Definition nearest_sphere_distance (origin direction : Vec3f F)
    (spheres : list (Sphere F)) : F :=
  fold_left (fun m t => if t <? m then t else m)
            (sphere_hits origin direction spheres) FLT_MAX.

(** The checkerboard hit is accepted. *)
Definition plane_accepted (origin direction : Vec3f F) (spheres : list (Sphere F)) : bool :=
  plane_guard direction
  && plane_accept origin direction (nearest_sphere_distance origin direction spheres).

(** The ray meets the plane in front of its origin and inside the tile
    (the conditions of the source other than [d < spheresDistance]). *)
Definition plane_in_tile (origin direction : Vec3f F) : bool :=
  let d := plane_d origin direction in
  let p := plane_p origin direction in
  plane_guard direction
  && ((d >? of_int 0) && (fabs (x p) <? of_int 10) && (z p <? of_int (-10))
      && (z p >? of_int (-30))).

(** The accepted checkerboard distance, [FLT_MAX] when there is none. *)
Definition accepted_plane_distance (origin direction : Vec3f F)
    (spheres : list (Sphere F)) : F :=
  if plane_accepted origin direction spheres
  then plane_d origin direction else FLT_MAX.

(** The candidate intersections of a ray: a sphere met at parameter [t],
    or the accepted checkerboard hit. *)
Inductive Candidate : Type :=
| SphereHit (s : Sphere F) (t : F)
| PlaneHit.

Definition is_candidate (origin direction : Vec3f F) (spheres : list (Sphere F))
    (c : Candidate) : Prop :=
  match c with
  | SphereHit s t => In s spheres /\ RayIntersect s origin direction = Some t
  | PlaneHit => plane_accepted origin direction spheres = true
  end.

Definition cand_distance (origin direction : Vec3f F) (c : Candidate) : F :=
  match c with
  | SphereHit _ t => t
  | PlaneHit => plane_d origin direction
  end.

Definition cand_point (origin direction : Vec3f F) (c : Candidate) : Vec3f F :=
  vadd origin (vscale direction (cand_distance origin direction c)).

Definition cand_normal (origin direction : Vec3f F) (c : Candidate) : Vec3f F :=
  match c with
  | SphereHit s _ => normalize (vsub (cand_point origin direction c) (m_Center s))
  | PlaneHit => mkVec3f (of_int 0) (of_int 1) (of_int 0)
  end.

(** The tile colour as the specification words it, with the floor of
    each term; [floor] is the mathematical floor of a float. *)
Definition tile_color_floor (floor : F -> Z) (p : Vec3f F) : Vec3f F :=
  if Z.odd (floor (flit 5 10 * x p + of_int 1000) + floor (flit 5 10 * z p))
  then white else pale_orange.

(** The tile colour with each term truncated toward zero, as [int(...)]
    does. *)
Definition tile_color_trunc (p : Vec3f F) : Vec3f F :=
  if Z.odd (to_int (flit 5 10 * x p + of_int 1000) + to_int (flit 5 10 * z p))
  then white else pale_orange.

(** The point of a ray at parameter [t]. *)
Definition ray_at (origin direction : Vec3f F) (t : F) : Vec3f F :=
  vadd origin (vscale direction t).

(** The locals [r], [c] and [k] of [Refract], after the reassignment under
    [c < 0]. *)
Definition refract_r (direction normal : Vec3f F) (refractiveIndex : F) : F :=
  if - (dot normal direction) <? of_int 0
  then refractiveIndex else flit 1 1 / refractiveIndex.

Definition refract_c (direction normal : Vec3f F) : F :=
  if - (dot normal direction) <? of_int 0
  then - - (dot normal direction) else - (dot normal direction).

Definition refract_k (direction normal : Vec3f F) (refractiveIndex : F) : F :=
  (refract_r direction normal refractiveIndex
   * refract_r direction normal refractiveIndex)
  * (of_int 1 - (refract_c direction normal * refract_c direction normal)).

(** A material that contributes only diffusely. *)
Definition diffuse_only (m : Material F) : Prop :=
  a1 (m_Albedo m) = flit 0 1 /\ a2 (m_Albedo m) = flit 0 1
  /\ a3 (m_Albedo m) = flit 0 1.
End Specification.

Arguments Candidate F : clear implicits.

(** ** The binary32 instance *)

(** IEEE-754 single precision on [SpecFloat]: 24 bits of mantissa, infinities
    at exponent 128, round to nearest even; [double] is binary64. *)
Module Binary32.
Definition prec : Z := 24.
Definition emax : Z := 128.
Definition dprec : Z := 53.
Definition demax : Z := 1024.

Definition of_Z (n : Z) : spec_float := binary_normalize prec emax n 0 false.

(** The integer part of a finite float, rounded toward zero. *)
Definition trunc (v : spec_float) : option Z :=
  match v with
  | S754_zero _ => Some 0%Z
  | S754_finite s m e =>
      Some (cond_Zopp s match e with
                        | Zneg k => Z.shiftr (Zpos m) (Zpos k)
                        | _ => Z.shiftl (Zpos m) e
                        end)
  | _ => None
  end.

(** The largest integer not above a finite float ([0] for the values
    that have none). *)
Definition floor (v : spec_float) : Z :=
  match v with
  | S754_finite s m e =>
      match e with
      | Zneg k => Z.shiftr (cond_Zopp s (Zpos m)) (Zpos k)
      | _ => cond_Zopp s (Z.shiftl (Zpos m) e)
      end
  | _ => 0%Z
  end.

(** [int(v)].  The conversion is undefined in C++ when the truncated
    value does not fit an [int]; the x86 instruction then yields
    [INT_MIN], which is what this model returns. *)
Definition to_Z (v : spec_float) : Z :=
  match trunc v with
  | Some n => if ((- 2 ^ 31 <=? n) && (n <? 2 ^ 31))%Z then n else (- 2 ^ 31)%Z
  | None => (- 2 ^ 31)%Z
  end.

(** A decimal literal [n/d].  For the literals of the sources both
    integers are exact in the format, and the division rounds once, to
    the float nearest to [n/d]. *)
Definition lit (n d : Z) : spec_float := SFdiv prec emax (of_Z n) (of_Z d).

Definition lit64 (n d : Z) : spec_float :=
  SFdiv dprec demax (binary_normalize dprec demax n 0 false)
                    (binary_normalize dprec demax d 0 false).

(** Re-rounding to another format; exact when widening. *)
Definition convert (p e : Z) (v : spec_float) : spec_float :=
  match v with
  | S754_finite s m ex => binary_round p e s m ex
  | _ => v
  end.

#[global] Instance ops : FloatOps spec_float := {|
  fadd := SFadd prec emax;
  fsub := SFsub prec emax;
  fmul := SFmul prec emax;
  fdiv := SFdiv prec emax;
  fopp := SFopp;
  fsqrt := SFsqrt prec emax;
  fabs := SFabs;
  fltb := SFltb;
  of_int := of_Z;
  to_int := to_Z;
  flit := lit;
  FLT_MAX := SFmax_float prec emax;
  double := spec_float;
  dlit := lit64;
  to_double := convert dprec demax;
  of_double := convert prec emax;
  dltb := SFltb
|}.

Definition vec (a b c : Z) : Vec3f spec_float := mkVec3f (of_Z a) (of_Z b) (of_Z c).

(** The vector whose three components are NaN. *)
Definition nan_vec : Vec3f spec_float := mkVec3f S754_nan S754_nan S754_nan.

(** [1.0f] and [2.0f], with sign [s]. *)
Definition one (s : bool) : spec_float := S754_finite s 8388608 (-23).
Definition two (s : bool) : spec_float := S754_finite s 8388608 (-22).

(** The unit vectors along the three axes, of either sign. *)
Definition axis_x (sn : bool) : Vec3f spec_float :=
  mkVec3f (one sn) (S754_zero false) (S754_zero false).
Definition axis_y (sn : bool) : Vec3f spec_float :=
  mkVec3f (S754_zero false) (one sn) (S754_zero false).
Definition axis_z (sn : bool) : Vec3f spec_float :=
  mkVec3f (S754_zero false) (S754_zero false) (one sn).

Definition axis_normals : list (Vec3f spec_float) :=
  [ vec 1 0 0; vec (-1) 0 0; vec 0 1 0; vec 0 (-1) 0; vec 0 0 1; vec 0 0 (-1) ].

(** A component on which reflection about an axis computes without
    rounding: positive zero, or a finite float in canonical form whose
    double is finite too (its magnitude is below [2^127]).  The double of
    [m * 2^e] is [m * 2^(e+1)], or [2m * 2^e] for a subnormal. *)
Definition exact_component (v : spec_float) : bool :=
  match v with
  | S754_zero s => negb s
  | S754_finite _ m e =>
      bounded prec emax m e
      && (bounded prec emax m (e + 1) || bounded prec emax (xO m) e)
  | _ => false
  end.

Definition exact_vec (D : Vec3f spec_float) : bool :=
  exact_component (x D) && exact_component (y D) && exact_component (z D).

(** The opposite of a finite float; a zero is left as it is. *)
Definition flip (d : spec_float) : spec_float :=
  match d with
  | S754_finite s m e => S754_finite (negb s) m e
  | _ => d
  end.

(** The mirror image of [D] in the plane of normal [N], for [N] along an
    axis: the component of [D] where [N] is not zero is flipped. *)
Definition flip_along (n d : spec_float) : spec_float :=
  match n with
  | S754_finite _ _ _ => flip d
  | _ => d
  end.

Definition mirror (N D : Vec3f spec_float) : Vec3f spec_float :=
  mkVec3f (flip_along (x N) (x D)) (flip_along (y N) (y D))
          (flip_along (z N) (z D)).

Definition zero_or_finite (v : spec_float) : Prop :=
  match v with
  | S754_zero _ | S754_finite _ _ _ => True
  | _ => False
  end.
End Binary32.

(** ** Laws of the comparison *)

(** What the proofs about nearest hits use of [<] on floats.
    Irreflexivity and transitivity hold of IEEE comparison, NaN included
    (every comparison with a NaN is false); the third law relates the two
    constants the source compares distances with. *)
Class FloatOrder (F : Type) {ops : FloatOps F} : Prop := {
  fltb_irrefl : forall a : F, fltb a a = false;
  fltb_trans : forall a b c : F,
    fltb a b = true -> fltb b c = true -> fltb a c = true;
  FLT_MAX_not_below_1000 : fltb FLT_MAX (of_int 1000) = false
}.

Arguments FloatOrder F {ops}.

Section Binary32Order.
Let lex (e1 : Z) (m1 : positive) (e2 : Z) (m2 : positive) : Prop :=
  (e1 < e2)%Z \/ (e1 = e2 /\ (m1 < m2)%positive).

Lemma lex_pos_Lt e1 m1 e2 m2 :
  match (e1 ?= e2)%Z with
  | Lt => Lt | Gt => Gt | Eq => Pos.compare_cont Eq m1 m2
  end = Lt <-> lex e1 m1 e2 m2.
Proof.
  unfold lex. change (Pos.compare_cont Eq m1 m2) with (m1 ?= m2)%positive.
  destruct (Z.compare_spec e1 e2); destruct (Pos.compare_spec m1 m2);
    split; intros; try discriminate; try reflexivity; subst; lia.
Qed.

Lemma lex_neg_Lt e1 m1 e2 m2 :
  match (e1 ?= e2)%Z with
  | Lt => Gt | Gt => Lt | Eq => CompOpp (Pos.compare_cont Eq m1 m2)
  end = Lt <-> lex e2 m2 e1 m1.
Proof.
  unfold lex. change (Pos.compare_cont Eq m1 m2) with (m1 ?= m2)%positive.
  destruct (Z.compare_spec e1 e2); destruct (Pos.compare_spec m1 m2);
    split; simpl; intros; try discriminate; try reflexivity; subst; lia.
Qed.

Lemma SFltb_finite s1 m1 e1 s2 m2 e2 :
  SFltb (S754_finite s1 m1 e1) (S754_finite s2 m2 e2) = true <->
  (s1 = true /\ s2 = false)
  \/ (s1 = false /\ s2 = false /\ lex e1 m1 e2 m2)
  \/ (s1 = true /\ s2 = true /\ lex e2 m2 e1 m1).
Proof.
  unfold SFltb, SFcompare.
  destruct s1, s2.
  - pose proof (lex_neg_Lt e1 m1 e2 m2) as L.
    destruct (match (e1 ?= e2)%Z with
              | Lt => Gt | Gt => Lt | Eq => CompOpp (Pos.compare_cont Eq m1 m2)
              end); simpl; intuition congruence.
  - simpl; intuition congruence.
  - simpl; intuition congruence.
  - pose proof (lex_pos_Lt e1 m1 e2 m2) as L.
    destruct (match (e1 ?= e2)%Z with
              | Lt => Lt | Gt => Gt | Eq => Pos.compare_cont Eq m1 m2
              end); simpl; intuition congruence.
Qed.

Lemma SFltb_irrefl (a : spec_float) : SFltb a a = false.
Proof.
  destruct a as [s|s| |s m e]; try (destruct s; reflexivity); try reflexivity.
  destruct (SFltb (S754_finite s m e) (S754_finite s m e)) eqn:E; [|reflexivity].
  apply SFltb_finite in E. unfold lex in E.
  destruct E as [[? ?]|[(_ & _ & ?)|(_ & _ & ?)]]; [congruence|lia|lia].
Qed.

Lemma SFltb_trans (a b c : spec_float) :
  SFltb a b = true -> SFltb b c = true -> SFltb a c = true.
Proof.
  destruct a as [sa|sa| |sa ma ea], b as [sb|sb| |sb mb eb],
           c as [sc|sc| |sc mc ec];
    try discriminate;
    try (destruct sa; try discriminate);
    try (destruct sb; try discriminate);
    try (destruct sc; try discriminate);
    try reflexivity.
  all: rewrite !SFltb_finite; unfold lex; intros H1 H2.
  all: destruct H1 as [[? ?]|[(? & ? & ?)|(? & ? & ?)]]; try discriminate.
  all: destruct H2 as [[? ?]|[(? & ? & ?)|(? & ? & ?)]]; try discriminate.
  all: try (left; split; reflexivity).
  all: try (right; left; repeat split; lia).
  all: try (right; right; repeat split; lia).
Qed.
End Binary32Order.

#[global] Instance Binary32_order : FloatOrder spec_float.
Proof.
  split.
  - exact SFltb_irrefl.
  - exact SFltb_trans.
  - reflexivity.
Qed.

(** ** Ray-sphere intersection *)

Section RayIntersectFacts.
Context {F : Type} {ops : FloatOps F}.
Local Open Scope float_scope.

(** C4.  With [b = dot(O - C, D)], [delta = b^2 - dot(O-C, O-C) + r^2],
    [s1 = -b - sqrt(delta)] and [s2 = -b + sqrt(delta)], [RayIntersect]
    reports no intersection when [delta < 0]; otherwise it returns [s1]
    when [s1 > 0]; otherwise [s2] when [s2 > 0] (the exit point, for an
    origin inside the sphere); otherwise it reports no intersection. *)
Theorem RayIntersect_cases (s : Sphere F) (origin direction : Vec3f F) :
  let delta := ray_delta s origin direction in
  let s1 := ray_s1 s origin direction in
  let s2 := ray_s2 s origin direction in
  ((delta <? of_int 0) = true -> RayIntersect s origin direction = None)
  /\ ((delta <? of_int 0) = false -> (s1 >? of_int 0) = true ->
      RayIntersect s origin direction = Some s1)
  /\ ((delta <? of_int 0) = false -> (s1 >? of_int 0) = false ->
      (s2 >? of_int 0) = true ->
      RayIntersect s origin direction = Some s2)
  /\ ((delta <? of_int 0) = false -> (s1 >? of_int 0) = false ->
      (s2 >? of_int 0) = false ->
      RayIntersect s origin direction = None).
Proof.
  intros delta s1 s2. unfold RayIntersect.
  fold (ray_b s origin direction).
  change ((ray_b s origin direction * ray_b s origin direction)
          - dot (vsub origin (m_Center s)) (vsub origin (m_Center s))
          + (m_Radius s * m_Radius s)) with delta.
  change (- ray_b s origin direction - fsqrt delta) with s1.
  change (- ray_b s origin direction + fsqrt delta) with s2.
  repeat split; intros; repeat match goal with
                               | H : _ = _ |- _ => rewrite H; clear H
                               end; reflexivity.
Qed.

(** Whatever [RayIntersect] returns is one of the two roots and is
    positive. *)
Lemma RayIntersect_Some (s : Sphere F) (origin direction : Vec3f F) (t : F) :
  RayIntersect s origin direction = Some t ->
  (t >? of_int 0) = true
  /\ (t = ray_s1 s origin direction \/ t = ray_s2 s origin direction).
Proof.
  unfold RayIntersect, ray_s1, ray_s2, ray_delta, ray_b. cbv zeta.
  repeat match goal with
         | |- context [if ?c then _ else _] => destruct c eqn:?
         end; try discriminate; intros [= <-]; auto.
Qed.
End RayIntersectFacts.

(** An origin at the centre of a sphere of radius 2: the entry root is
    [-2], the exit root [2] is returned. *)
Lemma RayIntersect_cases_witness :
  let s := mkSphere (Binary32.vec 0 0 0) (Binary32.of_Z 2) Material_default in
  let o := Binary32.vec 0 0 0 in
  let d := Binary32.vec 0 0 (-1) in
  RayIntersect s o d = Some (ray_s2 s o d)
  /\ ray_s1 s o d = Binary32.of_Z (-2) /\ ray_s2 s o d = Binary32.of_Z 2.
Proof.
  intros s o d. split; [|split; reflexivity].
  apply (proj1 (proj2 (proj2 (RayIntersect_cases s o d)))); reflexivity.
Defined.

(** A sphere of radius 1 ten units ahead is met at [10 - 1]; the same
    sphere moved five units aside is missed. *)
Example RayIntersect_ahead :
  RayIntersect (mkSphere (Binary32.vec 0 0 (-10)) (Binary32.of_Z 1) ivory)
               (Binary32.vec 0 0 0) (Binary32.vec 0 0 (-1))
  = Some (Binary32.of_Z 9)
  /\ RayIntersect (mkSphere (Binary32.vec 5 0 (-10)) (Binary32.of_Z 1) ivory)
                  (Binary32.vec 0 0 0) (Binary32.vec 0 0 (-1))
     = None.
Proof. split; reflexivity. Qed.

(** ** Scene intersection *)

Section SceneIntersectFacts.
Context {F : Type} {ops : FloatOps F}.
Local Open Scope float_scope.

Variables origin direction : Vec3f F.

(** The distance the sphere loop tracks does not depend on the hit
    record it fills. *)
Lemma sphere_fold_distance (l : list (Sphere F)) (sd0 : F) (h0 : Hit F) :
  fst (fold_left (sphere_step origin direction) l (sd0, h0))
  = fold_left (fun m t => if t <? m then t else m)
              (sphere_hits origin direction l) sd0.
Proof.
  revert sd0 h0. induction l as [|s l IH]; intros sd0 h0; [reflexivity|].
  cbn [fold_left sphere_hits flat_map]. unfold sphere_step at 2.
  destruct (RayIntersect s origin direction) as [t|]; cbn [app fold_left].
  - destruct (t <? sd0); apply IH.
  - apply IH.
Qed.

Lemma sphere_loop_distance (spheres : list (Sphere F)) (h0 : Hit F) :
  fst (sphere_loop origin direction spheres h0)
  = nearest_sphere_distance origin direction spheres.
Proof. apply sphere_fold_distance. Qed.

(** The hit is accepted when the plane is met inside the tile, nearer
    than every sphere. *)
Lemma plane_accepted_in_tile (spheres : list (Sphere F)) :
  plane_accepted origin direction spheres
  = plane_in_tile origin direction
    && (plane_d origin direction
        <? nearest_sphere_distance origin direction spheres).
Proof.
  unfold plane_accepted, plane_in_tile, plane_accept. cbv zeta.
  now rewrite andb_assoc.
Qed.

(** [SceneIntersect] when the checkerboard hit is accepted. *)
Lemma SceneIntersect_plane (spheres : list (Sphere F)) (h0 : Hit F) :
  plane_accepted origin direction spheres = true ->
  SceneIntersect origin direction spheres h0
  = (fmin (nearest_sphere_distance origin direction spheres)
          (plane_d origin direction) <? of_int 1000,
     mkHit (plane_p origin direction)
           (mkVec3f (of_int 0) (of_int 1) (of_int 0))
           (set_DiffuseColor
              (material (snd (sphere_loop origin direction spheres h0)))
              (vscale (tile_color (plane_p origin direction)) (flit 3 10)))).
Proof.
  unfold plane_accepted, SceneIntersect. intros H.
  apply andb_true_iff in H as [Hg Ha].
  rewrite <- (sphere_loop_distance spheres h0) in Ha |- *.
  destruct (sphere_loop origin direction spheres h0) as [sd h]. cbn [fst snd] in *.
  rewrite Hg. unfold checkerboard. rewrite Ha. reflexivity.
Qed.

(** [SceneIntersect] when it is not: only the sphere loop has run. *)
Lemma SceneIntersect_no_plane (spheres : list (Sphere F)) (h0 : Hit F) :
  plane_accepted origin direction spheres = false ->
  SceneIntersect origin direction spheres h0
  = (fmin (nearest_sphere_distance origin direction spheres) FLT_MAX
       <? of_int 1000,
     snd (sphere_loop origin direction spheres h0)).
Proof.
  unfold plane_accepted, SceneIntersect. intros H.
  rewrite <- (sphere_loop_distance spheres h0) in H |- *.
  destruct (sphere_loop origin direction spheres h0) as [sd h]. cbn [fst snd] in *.
  destruct (plane_guard direction); [|reflexivity].
  unfold checkerboard. cbn [andb] in H. rewrite H. reflexivity.
Qed.

(** C5.  [SceneIntersect] returns true exactly when the minimum of the
    nearest sphere-hit distance and the accepted checkerboard distance,
    each [FLT_MAX] when absent, is below 1000. *)
Theorem SceneIntersect_result (spheres : list (Sphere F)) (h0 : Hit F) :
  fst (SceneIntersect origin direction spheres h0)
  = (fmin (nearest_sphere_distance origin direction spheres)
          (accepted_plane_distance origin direction spheres) <? of_int 1000).
Proof.
  unfold accepted_plane_distance.
  destruct (plane_accepted origin direction spheres) eqn:E.
  - rewrite SceneIntersect_plane by assumption. reflexivity.
  - rewrite SceneIntersect_no_plane by assumption. reflexivity.
Qed.

(** The parity test [(i & 1) != 0] of the source is oddness of [i]. *)
Lemma land_1_odd (i : Z) : negb (Z.land i 1 =? 0)%Z = Z.odd i.
Proof.
  change 1%Z with (Z.ones 1) at 1. rewrite Z.land_ones by lia.
  change (2 ^ 1)%Z with 2%Z. rewrite Zmod_odd.
  destruct (Z.odd i); reflexivity.
Qed.

Lemma tile_color_parity (p : Vec3f F) : tile_color p = tile_color_trunc p.
Proof. unfold tile_color, tile_color_trunc. cbv zeta. now rewrite land_1_odd. Qed.

(** C2, amended.  When [SceneIntersect] accepts the checkerboard hit at
    [p], the diffuse colour it stores is 0.3 times the tile colour, and
    the tile colour is white when
    [int(0.5 * p.x + 1000) + int(0.5 * p.z)] is odd and pale orange when
    it is even, where [int] truncates toward zero. *)
Theorem checkerboard_tile_color (spheres : list (Sphere F)) (h0 : Hit F) :
  plane_accepted origin direction spheres = true ->
  let p := plane_p origin direction in
  let i := Z.add (to_int (flit 5 10 * x p + of_int 1000))
                 (to_int (flit 5 10 * z p)) in
  point (snd (SceneIntersect origin direction spheres h0)) = p
  /\ m_DiffuseColor (material (snd (SceneIntersect origin direction spheres h0)))
     = vscale (if Z.odd i then white else pale_orange) (flit 3 10).
Proof.
  intros H p i. rewrite (SceneIntersect_plane _ _ H). cbn [snd point material].
  split; [reflexivity|]. unfold set_DiffuseColor. cbn [m_DiffuseColor].
  now rewrite tile_color_parity.
Qed.

(** On an accepted checkerboard hit only the diffuse colour of the
    material is written: the albedo, the refractive index and the
    specular exponent are those the sphere loop left in [hitInfo]. *)
Lemma checkerboard_material (spheres : list (Sphere F)) (h0 : Hit F) :
  plane_accepted origin direction spheres = true ->
  let m := material (snd (SceneIntersect origin direction spheres h0)) in
  let m' := material (snd (sphere_loop origin direction spheres h0)) in
  m_Albedo m = m_Albedo m'
  /\ m_RefractiveIndex m = m_RefractiveIndex m'
  /\ m_SpecularExponent m = m_SpecularExponent m'
  /\ m_DiffuseColor m
     = vscale (tile_color (plane_p origin direction)) (flit 3 10).
Proof.
  intros H. rewrite (SceneIntersect_plane _ _ H). cbn. auto.
Qed.
End SceneIntersectFacts.

Section NearestHit.
Context {F : Type} {ops : FloatOps F} {ord : FloatOrder F}.
Local Open Scope float_scope.

Variables origin direction : Vec3f F.

Lemma fltb_asym (a b : F) : (a <? b) = true -> (b <? a) = false.
Proof.
  intros H. destruct (b <? a) eqn:E; [|reflexivity].
  rewrite <- (fltb_irrefl a). symmetry. exact (fltb_trans _ _ _ H E).
Qed.

(** Invariant of the sphere loop, from any starting state: the tracked
    distance is below no hit of a sphere already visited, and either the
    state is the initial one or it holds the hit data of a visited
    sphere, strictly nearer than the initial distance. *)
Lemma sphere_fold_inv (l : list (Sphere F)) (sd0 : F) (h0 : Hit F) :
  let r := fold_left (sphere_step origin direction) l (sd0, h0) in
  (forall s t, In s l -> RayIntersect s origin direction = Some t ->
               (t <? fst r) = false)
  /\ (r = (sd0, h0)
      \/ ((fst r <? sd0) = true
          /\ exists s, In s l
               /\ RayIntersect s origin direction = Some (fst r)
               /\ snd r = sphere_hit origin direction s (fst r))).
Proof.
  revert sd0 h0. induction l as [|s l IH]; intros sd0 h0.
  - cbn. split; [intros ? ? []|now left].
  - cbn [fold_left]. cbv zeta.
    destruct (RayIntersect s origin direction) as [t|] eqn:Es;
      [destruct (t <? sd0) eqn:Et|].
    + replace (sphere_step origin direction (sd0, h0) s)
        with (t, sphere_hit origin direction s t)
        by (unfold sphere_step; rewrite Es, Et; reflexivity).
      specialize (IH t (sphere_hit origin direction s t)). cbv zeta in IH.
      set (r := fold_left _ l _) in *.
      destruct IH as [IHlow [IHr|(IHlt & s' & Hin & Hs' & Hh)]].
      * split.
        -- intros s0 t0 [<-|Hin] H0; [|now apply (IHlow s0)].
           rewrite Es in H0. injection H0 as <-.
           rewrite IHr. apply fltb_irrefl.
        -- right. rewrite IHr. cbn [fst snd]. split; [assumption|].
           exists s. split; [now left|]. split; [assumption|reflexivity].
      * split.
        -- intros s0 t0 [<-|Hin0] H0; [|now apply (IHlow s0)].
           rewrite Es in H0. injection H0 as <-.
           now apply fltb_asym.
        -- right. split; [exact (fltb_trans _ _ _ IHlt Et)|].
           exists s'. split; [now right|]. split; assumption.
    + replace (sphere_step origin direction (sd0, h0) s) with (sd0, h0)
        by (unfold sphere_step; rewrite Es, Et; reflexivity).
      specialize (IH sd0 h0). cbv zeta in IH.
      set (r := fold_left _ l _) in *.
      destruct IH as [IHlow IHr]. split.
      * intros s0 t0 [<-|Hin] H0; [|now apply (IHlow s0)].
        rewrite Es in H0. injection H0 as <-.
        destruct IHr as [->|(IHlt & _)]; [assumption|].
        destruct (t <? fst r) eqn:E; [|reflexivity].
        rewrite <- Et. symmetry. exact (fltb_trans _ _ _ E IHlt).
      * destruct IHr as [IHr|(IHlt & s' & Hin & Hs' & Hh)]; [now left|].
        right. split; [assumption|].
        exists s'. split; [now right|]. split; assumption.
    + replace (sphere_step origin direction (sd0, h0) s) with (sd0, h0)
        by (unfold sphere_step; rewrite Es; reflexivity).
      specialize (IH sd0 h0). cbv zeta in IH.
      set (r := fold_left _ l _) in *.
      destruct IH as [IHlow IHr]. split.
      * intros s0 t0 [<-|Hin] H0; [congruence|now apply (IHlow s0)].
      * destruct IHr as [IHr|(IHlt & s' & Hin & Hs' & Hh)]; [now left|].
        right. split; [assumption|].
        exists s'. split; [now right|]. split; assumption.
Qed.

(** The invariant at the end of [sphere_loop]. *)
Lemma sphere_loop_inv (spheres : list (Sphere F)) (h0 : Hit F) :
  let sd := nearest_sphere_distance origin direction spheres in
  let h := snd (sphere_loop origin direction spheres h0) in
  (forall s t, In s spheres -> RayIntersect s origin direction = Some t ->
               (t <? sd) = false)
  /\ ((sd = FLT_MAX /\ h = h0)
      \/ ((sd <? FLT_MAX) = true
          /\ exists s, In s spheres
               /\ RayIntersect s origin direction = Some sd
               /\ h = sphere_hit origin direction s sd)).
Proof.
  cbv zeta. rewrite <- (sphere_loop_distance origin direction spheres h0).
  unfold sphere_loop.
  destruct (sphere_fold_inv spheres FLT_MAX h0) as [Hlow Hr].
  split; [exact Hlow|].
  destruct Hr as [->|Hr]; [left; split; reflexivity|now right].
Qed.

Lemma fmin_FLT_MAX (spheres : list (Sphere F)) :
  fmin (nearest_sphere_distance origin direction spheres) FLT_MAX
  = nearest_sphere_distance origin direction spheres.
Proof.
  unfold fmin.
  destruct (sphere_loop_inv spheres Hit_default) as [_ [[-> _]|[Hlt _]]].
  - now rewrite fltb_irrefl.
  - now rewrite (fltb_asym _ _ Hlt).
Qed.
End NearestHit.

Section NearestHitClaims.
Context {F : Type} {ops : FloatOps F} {ord : FloatOrder F}.
Local Open Scope float_scope.

Variables origin direction : Vec3f F.

(** C3.  Whenever [SceneIntersect] reports a hit, the point and the
    normal it reports are those of a candidate intersection (a sphere
    met by the ray, or the accepted checkerboard hit), and no candidate
    lies at a smaller distance along the ray; this holds for any number
    of candidates, two or more included.  Nor is the plane nearer when
    the ray meets it inside the tile without the hit being accepted.  For
    a sphere the reported material is the sphere's; for the checkerboard
    the reported diffuse colour is the tile's. *)
Theorem SceneIntersect_nearest (spheres : list (Sphere F)) (h0 h : Hit F) :
  SceneIntersect origin direction spheres h0 = (true, h) ->
  exists c : Candidate F,
    is_candidate origin direction spheres c
    /\ point h = cand_point origin direction c
    /\ normal h = cand_normal origin direction c
    /\ match c with
       | SphereHit s _ => material h = m_Material s
       | PlaneHit =>
           m_DiffuseColor (material h)
           = vscale (tile_color (plane_p origin direction)) (flit 3 10)
       end
    /\ (forall c', is_candidate origin direction spheres c' ->
         (cand_distance origin direction c' <? cand_distance origin direction c)
         = false)
    /\ (plane_in_tile origin direction = true ->
        (plane_d origin direction <? cand_distance origin direction c) = false).
Proof.
  intros HS.
  destruct (sphere_loop_inv origin direction spheres h0) as [Hlow Hst].
  destruct (plane_accepted origin direction spheres) eqn:Hp.
  - rewrite (SceneIntersect_plane _ _ _ _ Hp) in HS.
    injection HS as _ <-. exists (@PlaneHit F).
    split; [exact Hp|]. split; [reflexivity|]. split; [reflexivity|].
    split; [reflexivity|].
    split; [|intros _; apply fltb_irrefl].
    intros [s t|] Hc; cbn [cand_distance].
    + destruct Hc as [Hin Hs].
      unfold plane_accepted, plane_accept in Hp. cbv zeta in Hp.
      apply andb_true_iff in Hp as [_ Hp].
      apply andb_true_iff in Hp as [_ Hd].
      destruct (t <? plane_d origin direction) eqn:E; [|reflexivity].
      rewrite <- (Hlow s t Hin Hs). symmetry.
      exact (fltb_trans _ _ _ E Hd).
    + apply fltb_irrefl.
  - rewrite (SceneIntersect_no_plane _ _ _ _ Hp) in HS.
    injection HS as Hlt <-. rewrite fmin_FLT_MAX in Hlt.
    destruct Hst as [[Hsd _]|(_ & s & Hin & Hs & Hh)].
    + rewrite Hsd, FLT_MAX_not_below_1000 in Hlt. discriminate.
    + exists (SphereHit s (nearest_sphere_distance origin direction spheres)).
      split; [split; assumption|]. rewrite Hh.
      split; [reflexivity|]. split; [reflexivity|]. split; [reflexivity|]. split.
      * intros [s' t'|] Hc; cbn [cand_distance].
        -- destruct Hc as [Hin' Hs']. exact (Hlow s' t' Hin' Hs').
        -- cbn in Hc. congruence.
      * intros Ht. cbn [cand_distance].
        rewrite plane_accepted_in_tile, Ht in Hp. exact Hp.
Qed.

(** C8.  When [fabs(direction.y) > 1e-3] is false the checkerboard
    branch, and with it the division by [direction.y], is not entered:
    the result is that of the sphere loop alone.  With no sphere the ray
    is reported as no hit, [hitInfo] untouched. *)
Theorem SceneIntersect_parallel :
  dltb (dlit 1 1000) (to_double (fabs (y direction))) = false ->
  (forall spheres h0,
      SceneIntersect origin direction spheres h0
      = (fst (sphere_loop origin direction spheres h0) <? of_int 1000,
         snd (sphere_loop origin direction spheres h0)))
  /\ (forall h0, SceneIntersect origin direction [] h0 = (false, h0)).
Proof.
  intros Hg.
  assert (Hp : forall spheres, plane_accepted origin direction spheres = false).
  { intros spheres. unfold plane_accepted, plane_guard. now rewrite Hg. }
  split.
  - intros spheres h0. rewrite (SceneIntersect_no_plane _ _ _ _ (Hp spheres)).
    now rewrite fmin_FLT_MAX, sphere_loop_distance.
  - intros h0. rewrite (SceneIntersect_no_plane _ _ _ _ (Hp [])).
    rewrite fmin_FLT_MAX. cbn. now rewrite FLT_MAX_not_below_1000.
Qed.

(** C10.  When the nearest sphere intersection parameter [t] is below
    [FLT_MAX] but not below 1000 and no checkerboard hit is accepted,
    [SceneIntersect] returns false, yet [hitInfo] holds the hit data of
    the sphere met at [t]: its point, normal and material. *)
Theorem SceneIntersect_false_overwrites (spheres : list (Sphere F)) (h0 : Hit F) :
  let t := nearest_sphere_distance origin direction spheres in
  (t <? FLT_MAX) = true ->
  (t <? of_int 1000) = false ->
  plane_accepted origin direction spheres = false ->
  exists s, In s spheres
    /\ RayIntersect s origin direction = Some t
    /\ fst (SceneIntersect origin direction spheres h0) = false
    /\ let h := snd (SceneIntersect origin direction spheres h0) in
       point h = vadd origin (vscale direction t)
       /\ normal h = normalize (vsub (point h) (m_Center s))
       /\ material h = m_Material s.
Proof.
  intros t Hmax Hfar Hp.
  destruct (sphere_loop_inv origin direction spheres h0) as [_ Hst].
  rewrite (SceneIntersect_no_plane _ _ _ _ Hp), fmin_FLT_MAX. cbn [fst snd].
  destruct Hst as [[Hsd _]|(_ & s & Hin & Hs & Hh)].
  - fold t in Hsd. rewrite Hsd, fltb_irrefl in Hmax. discriminate.
  - exists s. fold t in Hs, Hh |- *. rewrite Hh.
    repeat split; assumption || reflexivity.
Qed.
End NearestHitClaims.

(** ** Recursive ray casting *)

Section CastRayFacts.
Context {F : Type} {ops : FloatOps F}.
Local Open Scope float_scope.

Variable powf : F -> F -> F.
Variables (spheres : list (Sphere F)) (lights : list (Light F)).

(** [CastRay] satisfies the equation the source writes. *)
Lemma CastRay_unfold (origin direction : Vec3f F) (depth : nat) :
  CastRay powf origin direction spheres lights depth
  = let '(hit, hitInfo) := SceneIntersect origin direction spheres Hit_default in
    if (depth <? 5)%nat && hit then
      let reflectDirection := normalize (Reflect direction (normal hitInfo)) in
      let refractDirection :=
        normalize (Refract direction (normal hitInfo)
                           (m_RefractiveIndex (material hitInfo))) in
      shade powf direction spheres lights hitInfo
        (CastRay powf (offset_origin reflectDirection hitInfo) reflectDirection
                 spheres lights (depth + 1))
        (CastRay powf (offset_origin refractDirection hitInfo) refractDirection
                 spheres lights (depth + 1))
    else background.
Proof.
  unfold CastRay. destruct (5 - depth)%nat as [|n] eqn:E.
  - cbn [CastRay_rec].
    destruct (SceneIntersect origin direction spheres Hit_default) as [hit hitInfo].
    replace (depth <? 5)%nat with false; [reflexivity|].
    symmetry. apply Nat.ltb_ge. lia.
  - cbn [CastRay_rec].
    replace (5 - (depth + 1))%nat with n by lia. reflexivity.
Qed.

(** C6.  [CastRay] returns the background colour [(0.2, 0.5, 0.8)]
    whenever [depth >= 5] or [SceneIntersect] reports no hit, whatever the
    scene; in the one remaining case, a hit at [depth < 5], it returns
    the shaded colour built from the two recursive calls at
    [depth + 1]. *)
Theorem CastRay_base_case (origin direction : Vec3f F) (depth : nat) :
  ((5 <= depth)%nat
   \/ fst (SceneIntersect origin direction spheres Hit_default) = false ->
   CastRay powf origin direction spheres lights depth
   = mkVec3f (of_double (dlit 2 10)) (of_double (dlit 5 10)) (of_double (dlit 8 10)))
  /\ (forall hitInfo,
        (depth < 5)%nat ->
        SceneIntersect origin direction spheres Hit_default = (true, hitInfo) ->
        let reflectDirection := normalize (Reflect direction (normal hitInfo)) in
        let refractDirection :=
          normalize (Refract direction (normal hitInfo)
                             (m_RefractiveIndex (material hitInfo))) in
        CastRay powf origin direction spheres lights depth
        = shade powf direction spheres lights hitInfo
            (CastRay powf (offset_origin reflectDirection hitInfo) reflectDirection
                     spheres lights (depth + 1))
            (CastRay powf (offset_origin refractDirection hitInfo) refractDirection
                     spheres lights (depth + 1))).
Proof.
  split.
  - intros H. rewrite CastRay_unfold.
    destruct (SceneIntersect origin direction spheres Hit_default) as [hit hitInfo].
    cbn [fst] in H. destruct H as [H| ->].
    + apply Nat.ltb_ge in H. rewrite H. reflexivity.
    + rewrite andb_false_r. reflexivity.
  - intros hitInfo Hd HS. rewrite CastRay_unfold, HS.
    apply Nat.ltb_lt in Hd. rewrite Hd. reflexivity.
Qed.

(** C7.  A light whose shadow ray, cast from the offset origin toward
    the light, hits a surface at a distance strictly below the distance
    to the light leaves both accumulated intensities as they were. *)
Theorem shadowed_light_contributes_nothing
    (direction : Vec3f F) (hitInfo shaddowInfo : Hit F) (l : Light F)
    (diffuseLightIntensity specularLightIntensity : F) :
  let lightDirection := normalize (vsub (m_Position l) (point hitInfo)) in
  let lightDistance := norm (vsub (m_Position l) (point hitInfo)) in
  let shadowOrigin := offset_origin lightDirection hitInfo in
  SceneIntersect shadowOrigin lightDirection spheres Hit_default
    = (true, shaddowInfo) ->
  (norm (vsub (point shaddowInfo) shadowOrigin) <? lightDistance) = true ->
  light_step powf direction spheres hitInfo
             (diffuseLightIntensity, specularLightIntensity) l
  = (diffuseLightIntensity, specularLightIntensity).
Proof.
  intros lightDirection lightDistance shadowOrigin HS Hlt.
  unfold light_step, occluded.
  fold lightDirection. fold shadowOrigin. fold lightDistance.
  rewrite HS, Hlt. reflexivity.
Qed.

(** Over the whole loop: the totals are those of the lights that are
    not occluded. *)
Lemma light_loop_skips_occluded (direction : Vec3f F) (hitInfo : Hit F) :
  light_loop powf direction spheres lights hitInfo
  = fold_left (light_step powf direction spheres hitInfo)
              (filter (fun l => negb (occluded spheres hitInfo l)) lights)
              (flit 0 1, flit 0 1).
Proof.
  unfold light_loop. generalize (flit 0 1, flit 0 1).
  induction lights as [|l ls IH]; intros acc; [reflexivity|].
  cbn [fold_left filter].
  destruct (occluded spheres hitInfo l) eqn:E; cbn [negb fold_left].
  - replace (light_step powf direction spheres hitInfo acc l) with acc; [apply IH|].
    unfold light_step. destruct acc. now rewrite E.
  - apply IH.
Qed.
End CastRayFacts.

(** ** The scene with no sphere on the ray *)

Section CheckerboardAlone.
Context {F : Type} {ops : FloatOps F}.

Variables origin direction : Vec3f F.

Lemma sphere_loop_no_hit (spheres : list (Sphere F)) (h0 : Hit F) :
  (forall s, In s spheres -> RayIntersect s origin direction = None) ->
  sphere_loop origin direction spheres h0 = (FLT_MAX, h0).
Proof.
  unfold sphere_loop. generalize (@FLT_MAX F ops).
  induction spheres as [|s l IH]; intros sd0 H; [reflexivity|].
  cbn [fold_left]. unfold sphere_step at 2.
  rewrite (H s (or_introl eq_refl)). apply IH.
  intros s' Hs'. apply H. now right.
Qed.

(** When the ray meets no sphere at all, an accepted checkerboard hit,
    started from a fresh [Hit()], carries the default albedo
    [(1, 0, 0, 0)]: it contributes only diffusely. *)
Lemma checkerboard_alone_diffuse_only (spheres : list (Sphere F)) :
  (forall s, In s spheres -> RayIntersect s origin direction = None) ->
  plane_accepted origin direction spheres = true ->
  let m := material (snd (SceneIntersect origin direction spheres Hit_default)) in
  diffuse_only m
  /\ m_DiffuseColor m = vscale (tile_color (plane_p origin direction)) (flit 3 10).
Proof.
  intros Hnone Hp.
  destruct (checkerboard_material origin direction spheres Hit_default Hp)
    as (Ha & _ & _ & Hd).
  rewrite (sphere_loop_no_hit _ Hit_default Hnone) in Ha. cbn in Ha.
  cbv zeta. split; [|exact Hd].
  unfold diffuse_only. rewrite Ha. cbn. auto.
Qed.
End CheckerboardAlone.

(** ** The program on binary32 inputs *)

(** C1, at a ray that meets the checkerboard first and a sphere behind
    it.  The ray leaves [(0, 0, -20)] straight down; the plane is met at
    [d = 4], a mirror sphere of radius 1 centred at [(0, -10, -20)] at
    [t = 9].  [SceneIntersect] reports the plane's point and normal, but
    the material keeps the albedo of the mirror, [(0, 10, 0.8, 0)]: the
    specular and reflection weights are not zero. *)
Theorem checkerboard_keeps_sphere_albedo :
  let o := Binary32.vec 0 0 (-20) in
  let d := Binary32.vec 0 (-1) 0 in
  let s := mkSphere (Binary32.vec 0 (-10) (-20)) (Binary32.of_Z 1) mirror in
  let r := SceneIntersect o d [s] Hit_default in
  RayIntersect s o d = Some (Binary32.of_Z 9)
  /\ plane_accepted o d [s] = true
  /\ plane_d o d = Binary32.of_Z 4
  /\ fst r = true
  /\ point (snd r) = Binary32.vec 0 (-4) (-20)
  /\ normal (snd r) = Binary32.vec 0 1 0
  /\ m_DiffuseColor (material (snd r)) = vscale pale_orange (flit 3 10)
  /\ m_Albedo (material (snd r)) = m_Albedo mirror
  /\ a1 (m_Albedo (material (snd r))) = Binary32.of_Z 10
  /\ a2 (m_Albedo (material (snd r))) = Binary32.lit 8 10
  /\ ~ diffuse_only (material (snd r)).
Proof.
  cbv zeta. repeat split; try (vm_compute; reflexivity).
  intros [H _]. vm_compute in H. discriminate H.
Qed.

(** C2 as worded, with floors, fails on the scene of [main].  The ray
    from the camera toward [(4, -4, -21)] meets the checkerboard at that
    point; [floor(0.5 * 4 + 1000) + floor(0.5 * -21) = 1002 - 11] is odd,
    so the wording asks for white, while [int(-10.5) = -10] makes the sum
    of the source even and the tile pale orange. *)
Lemma tile_color_floor_counterexample :
  let o := Binary32.vec 0 0 0 in
  let d := normalize (Binary32.vec 4 (-4) (-21)) in
  let h := snd (SceneIntersect o d main_spheres Hit_default) in
  plane_accepted o d main_spheres = true
  /\ point h = Binary32.vec 4 (-4) (-21)
  /\ Binary32.floor (fadd (fmul (flit 5 10) (x (point h))) (of_int 1000)) = 1002%Z
  /\ Binary32.floor (fmul (flit 5 10) (z (point h))) = (-11)%Z
  /\ tile_color_floor Binary32.floor (point h) = white
  /\ m_DiffuseColor (material h) = vscale pale_orange (flit 3 10)
  /\ m_DiffuseColor (material h)
     <> vscale (tile_color_floor Binary32.floor (point h)) (flit 3 10).
Proof.
  cbv zeta. repeat split; try (vm_compute; reflexivity).
  vm_compute. discriminate.
Qed.

Lemma checkerboard_tile_color_witness :
  let o := Binary32.vec 0 0 0 in
  let d := normalize (Binary32.vec 4 (-4) (-21)) in
  let h := snd (SceneIntersect o d main_spheres Hit_default) in
  point h = plane_p o d
  /\ to_int (fmul (flit 5 10) (x (plane_p o d))) = 2%Z
  /\ m_DiffuseColor (material h) = vscale pale_orange (flit 3 10).
Proof.
  cbv zeta.
  destruct (checkerboard_tile_color
              (Binary32.vec 0 0 0) (normalize (Binary32.vec 4 (-4) (-21)))
              main_spheres Hit_default) as [Hp Hc].
  - vm_compute. reflexivity.
  - split; [exact Hp|]. split; [vm_compute; reflexivity|]. exact Hc.
Defined.

(** Two spheres on the axis of the ray, met at [t = 9] and [t = 18]: the
    reported point is the one at 9. *)
Lemma SceneIntersect_nearest_witness :
  let o := Binary32.vec 0 0 0 in
  let d := Binary32.vec 0 0 (-1) in
  let spheres := [ mkSphere (Binary32.vec 0 0 (-20)) (Binary32.of_Z 2) ivory;
                   mkSphere (Binary32.vec 0 0 (-10)) (Binary32.of_Z 1) glass ] in
  sphere_hits o d spheres = [Binary32.of_Z 18; Binary32.of_Z 9]
  /\ point (snd (SceneIntersect o d spheres Hit_default)) = Binary32.vec 0 0 (-9)
  /\ exists c : Candidate spec_float,
       is_candidate o d spheres c
       /\ point (snd (SceneIntersect o d spheres Hit_default)) = cand_point o d c
       /\ normal (snd (SceneIntersect o d spheres Hit_default)) = cand_normal o d c
       /\ match c with
          | SphereHit s _ =>
              material (snd (SceneIntersect o d spheres Hit_default)) = m_Material s
          | PlaneHit =>
              m_DiffuseColor (material (snd (SceneIntersect o d spheres Hit_default)))
              = vscale (tile_color (plane_p o d)) (flit 3 10)
          end
       /\ (forall c', is_candidate o d spheres c' ->
            fltb (cand_distance o d c') (cand_distance o d c) = false)
       /\ (plane_in_tile o d = true ->
           fltb (plane_d o d) (cand_distance o d c) = false).
Proof.
  cbv zeta. split; [vm_compute; reflexivity|]. split; [vm_compute; reflexivity|].
  apply (SceneIntersect_nearest (ord := Binary32_order)) with (h0 := Hit_default).
  vm_compute. reflexivity.
Defined.

Lemma SceneIntersect_parallel_witness :
  SceneIntersect (Binary32.vec 0 0 0) (Binary32.vec 0 0 (-1)) [] Hit_default
  = (false, Hit_default).
Proof.
  apply (proj2 (SceneIntersect_parallel (ord := Binary32_order)
                  (Binary32.vec 0 0 0) (Binary32.vec 0 0 (-1)) eq_refl)).
Defined.

(** A sphere met at [t = 1999]: no hit is reported, and [hitInfo] holds
    the point [(0, 0, -1999)] on that sphere. *)
Lemma SceneIntersect_false_overwrites_witness :
  let o := Binary32.vec 0 0 0 in
  let d := Binary32.vec 0 0 (-1) in
  let spheres := [mkSphere (Binary32.vec 0 0 (-2000)) (Binary32.of_Z 1) redRubber] in
  nearest_sphere_distance o d spheres = Binary32.of_Z 1999
  /\ exists s, In s spheres
       /\ RayIntersect s o d = Some (nearest_sphere_distance o d spheres)
       /\ fst (SceneIntersect o d spheres Hit_default) = false
       /\ let h := snd (SceneIntersect o d spheres Hit_default) in
          point h = vadd o (vscale d (nearest_sphere_distance o d spheres))
          /\ normal h = normalize (vsub (point h) (m_Center s))
          /\ material h = m_Material s.
Proof.
  cbv zeta. split; [vm_compute; reflexivity|].
  apply (SceneIntersect_false_overwrites (ord := Binary32_order));
    vm_compute; reflexivity.
Defined.

(** At depth 5 on the scene of [main], and at depth 4 on a ray that hits
    the floor.  The function standing for [powf] plays no part in either
    statement. *)
Lemma CastRay_base_case_witness :
  let pw := fun b _ : spec_float => b in
  let o := Binary32.vec 0 0 0 in
  let d := normalize (Binary32.vec 4 (-4) (-21)) in
  CastRay pw o d main_spheres main_lights 5
    = mkVec3f (S754_finite false 13421773 (-26))
              (S754_finite false 8388608 (-24))
              (S754_finite false 13421773 (-24))
  /\ let hitInfo := snd (SceneIntersect o d main_spheres Hit_default) in
     let reflectDirection := normalize (Reflect d (normal hitInfo)) in
     let refractDirection :=
       normalize (Refract d (normal hitInfo) (m_RefractiveIndex (material hitInfo))) in
     CastRay pw o d main_spheres main_lights 4
     = shade pw d main_spheres main_lights hitInfo
         (CastRay pw (offset_origin reflectDirection hitInfo) reflectDirection
                  main_spheres main_lights 5)
         (CastRay pw (offset_origin refractDirection hitInfo) refractDirection
                  main_spheres main_lights 5).
Proof.
  cbv zeta. split.
  - refine (proj1 (CastRay_base_case (fun b _ : spec_float => b)
                     main_spheres main_lights _ _ 5) _).
    left. lia.
  - apply (proj2 (CastRay_base_case (fun b _ : spec_float => b)
                    main_spheres main_lights _ _ 4)).
    + lia.
    + vm_compute. reflexivity.
Defined.

(** A point on a floor facing up, a light ten units above it, and a
    sphere of radius 1 half way: the light adds nothing. *)
Lemma shadowed_light_contributes_nothing_witness :
  let pw := fun b _ : spec_float => b in
  let hitInfo := mkHit (Binary32.vec 0 0 0) (Binary32.vec 0 1 0) ivory in
  let l := mkLight (Binary32.vec 0 10 0) (Binary32.lit 15 10) in
  let spheres := [mkSphere (Binary32.vec 0 5 0) (Binary32.of_Z 1) redRubber] in
  light_step pw (Binary32.vec 0 (-1) 0) spheres hitInfo
             (Binary32.of_Z 1, Binary32.of_Z 2) l
  = (Binary32.of_Z 1, Binary32.of_Z 2).
Proof.
  cbv zeta.
  eapply (shadowed_light_contributes_nothing (fun b _ : spec_float => b)).
  - vm_compute. reflexivity.
  - vm_compute. reflexivity.
Defined.

(** On binary32 the identity holds only up to rounding: about the
    normal [(0.6f, 0.8f, 0)], whose computed norm is exactly 1, the
    direction [(0.1f, 0.2f, 0.3f)] comes back off by a few units in the
    last place on two components. *)
Remark Reflect_twice_binary32 :
  let N := mkVec3f (Binary32.lit 6 10) (Binary32.lit 8 10) (Binary32.lit 0 1) in
  let D := mkVec3f (Binary32.lit 1 10) (Binary32.lit 2 10) (Binary32.lit 3 10) in
  norm N = Binary32.of_Z 1
  /\ D = mkVec3f (S754_finite false 13421773 (-27))
                 (S754_finite false 13421773 (-26))
                 (S754_finite false 10066330 (-25))
  /\ Reflect (Reflect D N) N
     = mkVec3f (S754_finite false 13421780 (-27))
               (S754_finite false 13421777 (-26))
               (S754_finite false 10066330 (-25)).
Proof. cbv zeta. repeat split; vm_compute; reflexivity. Qed.

(** ** Further properties of [SceneIntersect] *)

Section SceneIntersectMore.
Context {F : Type} {ops : FloatOps F} {ord : FloatOrder F}.
Local Open Scope float_scope.

Variables origin direction : Vec3f F.

(** A reported hit lies on the ray at a parameter strictly between 0 and
    1000. *)
Theorem SceneIntersect_hit_range (spheres : list (Sphere F)) (h0 h : Hit F) :
  SceneIntersect origin direction spheres h0 = (true, h) ->
  exists t : F,
    (t >? of_int 0) = true
    /\ (t <? of_int 1000) = true
    /\ point h = ray_at origin direction t.
Proof.
  intros HS.
  destruct (plane_accepted origin direction spheres) eqn:Hp.
  - rewrite (SceneIntersect_plane _ _ _ _ Hp) in HS.
    injection HS as Hlt <-. exists (plane_d origin direction).
    unfold plane_accepted, plane_accept in Hp. cbv zeta in Hp.
    apply andb_true_iff in Hp as [_ Hp].
    apply andb_true_iff in Hp as [Hp Hd].
    apply andb_true_iff in Hp as [Hp _].
    apply andb_true_iff in Hp as [Hp _].
    apply andb_true_iff in Hp as [Hpos _].
    unfold fmin in Hlt. rewrite Hd in Hlt.
    split; [exact Hpos|]. split; [exact Hlt|reflexivity].
  - rewrite (SceneIntersect_no_plane _ _ _ _ Hp) in HS.
    injection HS as Hlt <-. rewrite fmin_FLT_MAX in Hlt.
    destruct (sphere_loop_inv origin direction spheres h0)
      as [_ [[Hsd _]|(_ & s & Hin & Hs & Hh)]].
    + rewrite Hsd, FLT_MAX_not_below_1000 in Hlt. discriminate.
    + exists (nearest_sphere_distance origin direction spheres).
      split; [exact (proj1 (RayIntersect_Some _ _ _ Hs))|].
      split; [exact Hlt|]. rewrite Hh. reflexivity.
Qed.

(** A ray that meets no sphere and does not meet the plane inside the
    tile is reported as no hit, and [hitInfo] is left as it was passed. *)
Theorem SceneIntersect_nothing_met (spheres : list (Sphere F)) (h0 : Hit F) :
  (forall s, In s spheres -> RayIntersect s origin direction = None) ->
  plane_in_tile origin direction = false ->
  SceneIntersect origin direction spheres h0 = (false, h0).
Proof.
  intros Hnone Ht.
  assert (Hp : plane_accepted origin direction spheres = false)
    by (rewrite plane_accepted_in_tile, Ht; reflexivity).
  rewrite (SceneIntersect_no_plane _ _ _ _ Hp), fmin_FLT_MAX.
  rewrite <- (sphere_loop_distance origin direction spheres h0).
  rewrite (sphere_loop_no_hit _ _ _ h0 Hnone). cbn [fst snd].
  now rewrite FLT_MAX_not_below_1000.
Qed.
End SceneIntersectMore.

(** ** [Render]: clamping of a channel *)

Section RenderFacts.
Context {F : Type} {ops : FloatOps F} {ord : FloatOrder F}.
Local Open Scope float_scope.

(** Whatever the channel holds, NaN and infinities included, the factor
    of 255 is [0.0f], [1.0f], or the channel itself when it lies strictly
    between them; a channel that is not below [1.0f] (a NaN among them)
    gives [1.0f], one that is below [1.0f] but not above [0.0f] gives
    [0.0f]. *)
Theorem clamped_cases (c : F) :
  (flit 0 1 <? flit 1 1) = true ->
  ((c <? flit 1 1) = false -> clamped c = flit 1 1)
  /\ ((c <? flit 1 1) = true -> (c >? flit 0 1) = false -> clamped c = flit 0 1)
  /\ ((c <? flit 1 1) = true -> (c >? flit 0 1) = true -> clamped c = c)
  /\ (clamped c <? flit 0 1) = false
  /\ (clamped c >? flit 1 1) = false.
Proof.
  intros H01. unfold clamped, fmin, fmax.
  destruct (c <? flit 1 1) eqn:E1.
  - destruct (flit 0 1 <? c) eqn:E0.
    + repeat split; try discriminate; auto using fltb_asym.
    + repeat split; try discriminate; auto using fltb_irrefl, fltb_asym.
  - rewrite H01.
    repeat split; try discriminate; auto using fltb_irrefl, fltb_asym.
Qed.
End RenderFacts.

(** The channel NaN is written at full intensity. *)
Lemma clamped_cases_witness :
  clamped S754_nan = Binary32.of_Z 1
  /\ channel S754_nan = Binary32.of_Z 255.
Proof.
  split; [|reflexivity].
  apply (proj1 (clamped_cases (ord := Binary32_order) S754_nan eq_refl)).
  reflexivity.
Defined.

Lemma SceneIntersect_hit_range_witness :
  let o := Binary32.vec 0 0 0 in
  let d := normalize (Binary32.vec 4 (-4) (-21)) in
  exists t : spec_float,
    fltb (of_int 0) t = true /\ fltb t (of_int 1000) = true
    /\ point (snd (SceneIntersect o d main_spheres Hit_default)) = ray_at o d t.
Proof.
  cbv zeta.
  apply (SceneIntersect_hit_range (ord := Binary32_order))
    with (spheres := main_spheres) (h0 := Hit_default).
  vm_compute. reflexivity.
Defined.

(** A ray leaving the camera upward on the scene of [main]. *)
Lemma SceneIntersect_nothing_met_witness :
  SceneIntersect (Binary32.vec 0 0 0) (Binary32.vec 0 1 0) main_spheres Hit_default
  = (false, Hit_default).
Proof.
  apply (SceneIntersect_nothing_met (ord := Binary32_order)).
  - intros s Hs. cbn in Hs.
    repeat (destruct Hs as [<-|Hs]; [vm_compute; reflexivity|]).
    destruct Hs.
  - vm_compute. reflexivity.
Defined.

(** ** Total internal reflection on binary32 *)

Section Binary32NaN.
Local Open Scope float_scope.

Lemma SFmul_nan_r (a : spec_float) :
  SFmul Binary32.prec Binary32.emax a S754_nan = S754_nan.
Proof. destruct a; reflexivity. Qed.

Lemma SFadd_nan_r (a : spec_float) :
  SFadd Binary32.prec Binary32.emax a S754_nan = S754_nan.
Proof. destruct a; reflexivity. Qed.

Lemma SFsub_nan_r (a : spec_float) :
  SFsub Binary32.prec Binary32.emax a S754_nan = S754_nan.
Proof. destruct a; reflexivity. Qed.

(** [sqrtf] of a value below zero is NaN. *)
Lemma SFsqrt_negative (a : spec_float) :
  SFltb a (S754_zero false) = true ->
  SFsqrt Binary32.prec Binary32.emax a = S754_nan.
Proof. destruct a as [s|s| |s m e]; try destruct s; try discriminate; reflexivity. Qed.

Lemma dot_nan_r (v : Vec3f spec_float) : dot v Binary32.nan_vec = S754_nan.
Proof.
  unfold dot. cbn [x y z Binary32.nan_vec fmul fadd Binary32.ops].
  now rewrite !SFmul_nan_r.
Qed.

Lemma RayIntersect_nan_direction (s : Sphere spec_float) (origin : Vec3f spec_float) :
  RayIntersect s origin Binary32.nan_vec = None.
Proof. unfold RayIntersect. cbv zeta. rewrite dot_nan_r. reflexivity. Qed.

Lemma SceneIntersect_nan_direction (origin : Vec3f spec_float)
    (spheres : list (Sphere spec_float)) (h0 : Hit spec_float) :
  SceneIntersect origin Binary32.nan_vec spheres h0 = (false, h0).
Proof.
  unfold SceneIntersect.
  rewrite (sphere_loop_no_hit origin Binary32.nan_vec spheres h0)
    by (intros; apply RayIntersect_nan_direction).
  reflexivity.
Qed.

Lemma refracted_nan (D n : Vec3f spec_float) (r c : spec_float) :
  vadd (vscale D r) (vscale n (r * c - S754_nan)) = Binary32.nan_vec.
Proof.
  unfold vadd, vscale. cbn [x y z fsub fmul fadd Binary32.ops].
  now rewrite SFsub_nan_r, !SFmul_nan_r, !SFadd_nan_r.
Qed.

(** From [1.0f - k < 0] to the NaN result, on either branch of the test
    [c < 0]. *)
Ltac refract_nan H :=
  unfold refract_k, refract_r, refract_c in H; unfold Refract; cbv zeta;
  destruct (fltb (fopp (dot _ _)) (of_int 0));
  apply SFsqrt_negative in H; cbn [fsqrt Binary32.ops] in *; rewrite H;
  apply refracted_nan.

(** When [1.0f - k] is below zero (the case the comment in [Refract]
    warns about), the square root is NaN and so is every component of
    the vector [Refract] returns. *)
Theorem Refract_total_internal_reflection
    (direction normal : Vec3f spec_float) (refractiveIndex : spec_float) :
  (flit 1 1 - refract_k direction normal refractiveIndex <? of_int 0) = true ->
  Refract direction normal refractiveIndex = Binary32.nan_vec.
Proof. intros H. refract_nan H. Qed.

(** In that case the ray [CastRay] sends along the normalized refracted
    direction meets nothing, wherever it starts and whatever the scene:
    the refracted colour is the background colour. *)
Theorem CastRay_total_internal_reflection
    (powf : spec_float -> spec_float -> spec_float)
    (direction normal origin : Vec3f spec_float) (refractiveIndex : spec_float)
    (spheres : list (Sphere spec_float)) (lights : list (Light spec_float))
    (depth : nat) :
  (flit 1 1 - refract_k direction normal refractiveIndex <? of_int 0) = true ->
  CastRay powf origin (normalize (Refract direction normal refractiveIndex))
          spheres lights depth
  = background.
Proof.
  intros H.
  replace (Refract direction normal refractiveIndex) with Binary32.nan_vec
    by (symmetry; refract_nan H).
  change (normalize Binary32.nan_vec) with Binary32.nan_vec.
  rewrite CastRay_unfold, SceneIntersect_nan_direction.
  now rewrite andb_false_r.
Qed.
End Binary32NaN.

(** Inside glass ([refractiveIndex = 1.5]), a ray meeting the surface at
    [(0.8, 0.6, 0)] against the outward normal [(0, 1, 0)]: [k = 1.44]. *)
Lemma Refract_total_internal_reflection_witness :
  let D := mkVec3f (Binary32.lit 8 10) (Binary32.lit 6 10) (Binary32.of_Z 0) in
  let N := Binary32.vec 0 1 0 in
  fltb (Binary32.of_Z 1) (refract_k D N (Binary32.lit 15 10)) = true
  /\ Refract D N (Binary32.lit 15 10) = Binary32.nan_vec.
Proof.
  cbv zeta. split; [vm_compute; reflexivity|].
  apply Refract_total_internal_reflection. vm_compute. reflexivity.
Defined.

Lemma CastRay_total_internal_reflection_witness :
  let D := mkVec3f (Binary32.lit 8 10) (Binary32.lit 6 10) (Binary32.of_Z 0) in
  let N := Binary32.vec 0 1 0 in
  CastRay (fun b _ : spec_float => b) (Binary32.vec 0 0 (-12))
          (normalize (Refract D N (Binary32.lit 15 10)))
          main_spheres main_lights 1
  = background.
Proof.
  cbv zeta. apply CastRay_total_internal_reflection. vm_compute. reflexivity.
Defined.

(** ** Reflection about an axis, on binary32 *)

(** About a unit normal along an axis every operation of [Reflect] is
    exact: the products with [0.0f], [1.0f] and [2.0f] and the
    difference [d - 2d] round to themselves. *)
Section ReflectAxis.
Import Binary32.

(** Rounding a float that is already in canonical form gives it back. *)
Lemma binary_round_canonical (s : bool) (m : positive) (e : Z) :
  bounded prec emax m e = true ->
  binary_round prec emax s m e = S754_finite s m e.
Proof.
  unfold bounded, canonical_mantissa. intros H.
  apply andb_true_iff in H as [Hc He]. apply Z.eqb_eq in Hc.
  unfold binary_round, shl_align. rewrite Hc, Z.sub_diag.
  unfold binary_round_aux, shr_fexp. cbn [Zdigits2 shr_record_of_loc].
  rewrite Hc, Z.sub_diag.
  cbn [shr shr_m loc_of_shr_record round_nearest_even Zdigits2 shr_record_of_loc].
  rewrite Hc, Z.sub_diag. cbn [shr shr_m]. rewrite He. reflexivity.
Qed.

(** A canonical mantissa followed by [k] zero bits, [k] exponents lower,
    rounds to the canonical float; [k] is 23 for the products with
    [1.0f] and [2.0f], 22 for the double of a subnormal. *)
Lemma round_shift (k : positive) (s : bool) (m : positive) (e e0 : Z) :
  (k = 22 \/ k = 23)%positive ->
  bounded prec emax m e = true -> e0 = (e - Zpos k)%Z ->
  binary_round_aux prec emax s (Zpos (Pos.iter xO m k)) e0 loc_Exact
  = S754_finite s m e.
Proof.
  unfold bounded, canonical_mantissa. intros Hk H ->.
  apply andb_true_iff in H as [Hc He]. apply Z.eqb_eq in Hc.
  unfold binary_round_aux, shr_fexp. unfold Zdigits2 at 1.
  assert (Hd : Zpos (digits2_pos (Pos.iter xO m k))
               = (Zpos (digits2_pos m) + Zpos k)%Z).
  { destruct Hk as [-> | ->]; cbn [Pos.iter digits2_pos];
      rewrite !Pos2Z.inj_succ; lia. }
  rewrite Hd.
  replace (Zpos (digits2_pos m) + Zpos k + (e - Zpos k))%Z
    with (Zpos (digits2_pos m) + e)%Z by lia.
  rewrite Hc. replace (e - (e - Zpos k))%Z with (Zpos k) by lia.
  assert (Hs : iter_pos shr_1 k
                 (shr_record_of_loc (Zpos (Pos.iter xO m k)) loc_Exact)
               = Build_shr_record (Zpos m) false false).
  { destruct Hk as [-> | ->]; reflexivity. }
  cbn [shr]. rewrite Hs.
  cbn [shr_m loc_of_shr_record round_nearest_even Zdigits2].
  replace (e - Zpos k + Zpos k)%Z with e by lia.
  rewrite Hc, Z.sub_diag. cbn [shr shr_m shr_record_of_loc].
  rewrite He. reflexivity.
Qed.

(** [d * 1.0f] and [d * -1.0f] *)
Lemma mul_one_r (s sn : bool) (m : positive) (e : Z) :
  bounded prec emax m e = true ->
  SFmul prec emax (S754_finite s m e) (one sn) = S754_finite (xorb s sn) m e.
Proof.
  intros H. unfold SFmul, one. rewrite Pos.mul_comm.
  change (8388608 * m)%positive with (Pos.iter xO m 23).
  apply (@round_shift 23); [now right|assumption|lia].
Qed.

(** [2.0f * d] and [-2.0f * d], for a normal and for a subnormal [d] *)
Lemma mul_two_l (s sn : bool) (m : positive) (e : Z) :
  SFmul prec emax (two sn) (S754_finite s m e)
  = if bounded prec emax m (e + 1) then S754_finite (xorb sn s) m (e + 1)
    else if bounded prec emax (xO m) e then S754_finite (xorb sn s) (xO m) e
    else SFmul prec emax (two sn) (S754_finite s m e).
Proof.
  destruct (bounded prec emax m (e + 1)) eqn:H1;
    [|destruct (bounded prec emax (xO m) e) eqn:H2; [|reflexivity]].
  - unfold SFmul, two.
    change (8388608 * m)%positive with (Pos.iter xO m 23).
    apply (@round_shift 23); [now right|assumption|lia].
  - unfold SFmul, two.
    change (8388608 * m)%positive with (Pos.iter xO (xO m) 22).
    apply (@round_shift 22); [now left|assumption|lia].
Qed.

(** [d - 2d = -d], for either form of the double *)
Lemma sub_double (s : bool) (m : positive) (e : Z) :
  bounded prec emax m e = true ->
  SFsub prec emax (S754_finite s m e) (S754_finite s m (e + 1))
  = S754_finite (negb s) m e
  /\ SFsub prec emax (S754_finite s m e) (S754_finite s (xO m) e)
     = S754_finite (negb s) m e.
Proof.
  intros H. unfold SFsub. split.
  - replace (Z.min e (e + 1)) with e by lia.
    unfold shl_align. rewrite Z.sub_diag.
    replace (e - (e + 1))%Z with (-1)%Z by lia. cbn [fst Pos.iter].
    replace (cond_Zopp s (Zpos m) - cond_Zopp s (Zpos (xO m)))%Z
      with (cond_Zopp (negb s) (Zpos m))
      by (destruct s; cbn [cond_Zopp negb]; lia).
    destruct s; cbn [cond_Zopp negb Z.opp binary_normalize];
      now apply binary_round_canonical.
  - rewrite Z.min_id. unfold shl_align. rewrite Z.sub_diag. cbn [fst].
    replace (cond_Zopp s (Zpos m) - cond_Zopp s (Zpos (xO m)))%Z
      with (cond_Zopp (negb s) (Zpos m))
      by (destruct s; cbn [cond_Zopp negb]; lia).
    destruct s; cbn [cond_Zopp negb Z.opp binary_normalize];
      now apply binary_round_canonical.
Qed.

(** The component along the axis, [d - (n * 2) * s], when the dot product
    [s] is [d * n] or a zero. *)
Lemma comp_flip (d : spec_float) (sn : bool) :
  exact_component d = true ->
  match d with
  | S754_finite s m e =>
      SFsub prec emax d (SFmul prec emax (two sn) (S754_finite (xorb s sn) m e))
      = flip d
  | _ =>
      forall b, SFsub prec emax d (SFmul prec emax (two sn) (S754_zero b))
                = flip d
  end.
Proof.
  destruct d as [s|s| |s m e]; try discriminate.
  - destruct s; [discriminate|]. intros _ b. destruct sn, b; reflexivity.
  - cbn [exact_component]. intros H.
    apply andb_true_iff in H as [Hb Hd].
    rewrite mul_two_l.
    replace (xorb sn (xorb s sn)) with s by (destruct s, sn; reflexivity).
    destruct (@sub_double s m e Hb) as [S1 S2].
    destruct (bounded prec emax m (e + 1)); [exact S1|].
    cbn [orb] in Hd. rewrite Hd. exact S2.
Qed.

(** A component across the axis, [d - (0 * 2) * s]. *)
Lemma comp_keep (d s : spec_float) :
  exact_component d = true -> zero_or_finite s ->
  SFsub prec emax d (SFmul prec emax (S754_zero false) s) = d.
Proof.
  intros H Hs.
  destruct d as [a|a| |a m e]; try discriminate;
    destruct s as [b|b| |b m' e']; try contradiction;
    try (destruct a; [discriminate|]); try destruct b; reflexivity.
Qed.

Lemma mul_zero_r (d : spec_float) :
  exact_component d = true ->
  exists a, SFmul prec emax d (S754_zero false) = S754_zero a.
Proof.
  destruct d as [a|a| |a m e]; try discriminate; intros _; eexists; reflexivity.
Qed.

(** The term of the dot product along the axis. *)
Lemma mul_axis (d : spec_float) (sn : bool) :
  exact_component d = true ->
  SFmul prec emax d (one sn)
  = match d with
    | S754_finite s m e => S754_finite (xorb s sn) m e
    | _ => S754_zero sn
    end.
Proof.
  destruct d as [a|a| |a m e]; try discriminate.
  - destruct a; [discriminate|]. reflexivity.
  - cbn [exact_component]. intros H. apply andb_true_iff in H as [H _].
    now apply mul_one_r.
Qed.

(** The dot product [s] is the sum of that term and two zeros, in one of
    three orders; the component along the axis is flipped. *)
Lemma reflect_axis_component (d : spec_float) (sn a b : bool) (s : spec_float) :
  exact_component d = true ->
  (s = SFadd prec emax
         (SFadd prec emax (SFmul prec emax d (one sn)) (S754_zero a))
         (S754_zero b)
   \/ s = SFadd prec emax
            (SFadd prec emax (S754_zero a) (SFmul prec emax d (one sn)))
            (S754_zero b)
   \/ s = SFadd prec emax
            (SFadd prec emax (S754_zero a) (S754_zero b))
            (SFmul prec emax d (one sn))) ->
  zero_or_finite s /\ SFsub prec emax d (SFmul prec emax (two sn) s) = flip d.
Proof.
  intros H Hs. rewrite (@mul_axis d sn H) in Hs.
  pose proof (@comp_flip d sn H) as F.
  destruct d as [c|c| |c m e]; try discriminate.
  - destruct c; [discriminate|].
    assert (Z : exists z, s = S754_zero z).
    { destruct Hs as [->|[->| ->]]; destruct sn, a, b; eexists; reflexivity. }
    destruct Z as [z ->]. split; [exact I|apply F].
  - assert (E : s = S754_finite (xorb c sn) m e).
    { destruct Hs as [->|[->| ->]]; destruct a, b; reflexivity. }
    rewrite E. split; [exact I|exact F].
Qed.

Ltac reflect_axis D H :=
  destruct D as [dx dy dz]; unfold exact_vec in H; cbn [x y z] in H;
  apply andb_true_iff in H as [H Hz]; apply andb_true_iff in H as [Hx Hy];
  unfold Reflect, vsub, vscale, dot;
  cbn [x y z fsub fmul fadd flit Binary32.ops axis_x axis_y axis_z];
  change (lit 2 1) with (two false);
  change (SFmul prec emax (S754_zero false) (two false)) with (S754_zero false);
  match goal with
  | |- context [SFmul prec emax (one ?sn) (two false)] =>
      replace (SFmul prec emax (one sn) (two false)) with (two sn)
        by (destruct sn; reflexivity)
  end.

Lemma Reflect_axis_x (D : Vec3f spec_float) (sn : bool) :
  exact_vec D = true ->
  Reflect D (axis_x sn) = mkVec3f (flip (x D)) (y D) (z D).
Proof.
  intros H. reflect_axis D H.
  destruct (@mul_zero_r dy Hy) as [a ->], (@mul_zero_r dz Hz) as [b ->].
  destruct (@reflect_axis_component dx sn a b _ Hx (or_introl eq_refl))
    as [Zs Fx].
  rewrite Fx, (@comp_keep dy _ Hy Zs), (@comp_keep dz _ Hz Zs). reflexivity.
Qed.

Lemma Reflect_axis_y (D : Vec3f spec_float) (sn : bool) :
  exact_vec D = true ->
  Reflect D (axis_y sn) = mkVec3f (x D) (flip (y D)) (z D).
Proof.
  intros H. reflect_axis D H.
  destruct (@mul_zero_r dx Hx) as [a ->], (@mul_zero_r dz Hz) as [b ->].
  destruct (@reflect_axis_component dy sn a b _ Hy
              (or_intror (or_introl eq_refl))) as [Zs Fy].
  rewrite Fy, (@comp_keep dx _ Hx Zs), (@comp_keep dz _ Hz Zs). reflexivity.
Qed.

Lemma Reflect_axis_z (D : Vec3f spec_float) (sn : bool) :
  exact_vec D = true ->
  Reflect D (axis_z sn) = mkVec3f (x D) (y D) (flip (z D)).
Proof.
  intros H. reflect_axis D H.
  destruct (@mul_zero_r dx Hx) as [a ->], (@mul_zero_r dy Hy) as [b ->].
  destruct (@reflect_axis_component dz sn a b _ Hz
              (or_intror (or_intror eq_refl))) as [Zs Fz].
  rewrite Fz, (@comp_keep dx _ Hx Zs), (@comp_keep dy _ Hy Zs). reflexivity.
Qed.



(** The six normals of [axis_normals], by axis and sign. *)
Lemma axis_normals_cases (N : Vec3f spec_float) :
  In N axis_normals ->
  (exists sn, N = axis_x sn) \/ (exists sn, N = axis_y sn)
  \/ (exists sn, N = axis_z sn).
Proof.
  intros HN. cbn in HN.
  destruct HN as [<-|[<-|[<-|[<-|[<-|[<-|[]]]]]]];
    [left; exists false|left; exists true
    |right; left; exists false|right; left; exists true
    |right; right; exists false|right; right; exists true]; reflexivity.
Qed.

(** Reflection about a unit normal along an axis computes the mirror
    image without rounding: the component along the axis changes sign (a
    zero stays [+0]) and the other two come back bit for bit. *)
Theorem Reflect_axis_mirror (D N : Vec3f spec_float) :
  In N axis_normals -> exact_vec D = true ->
  Reflect D N = mirror N D.
Proof.
  intros HN HD.
  destruct (@axis_normals_cases N HN) as [[sn ->]|[[sn ->]|[sn ->]]].
  - rewrite (@Reflect_axis_x D sn HD). reflexivity.
  - rewrite (@Reflect_axis_y D sn HD). reflexivity.
  - rewrite (@Reflect_axis_z D sn HD). reflexivity.
Qed.

End ReflectAxis.


(** Each of the six normals has length 1, computed and exact. *)
Lemma axis_normals_unit (N : Vec3f spec_float) :
  In N Binary32.axis_normals -> norm N = Binary32.of_Z 1.
Proof.
  intros HN. cbn in HN.
  destruct HN as [<-|[<-|[<-|[<-|[<-|[<-|[]]]]]]]; reflexivity.
Qed.

(** Why negative zero is set apart: the component [-0] of
    [(-0, -1, 0)] comes back as [+0], equal as a number but not as a
    float. *)
Remark Reflect_twice_negative_zero :
  let N := Binary32.vec 0 1 0 in
  let D := mkVec3f (S754_zero true) (Binary32.of_Z (-1)) (S754_zero false) in
  Reflect (Reflect D N) N
  = mkVec3f (S754_zero false) (Binary32.of_Z (-1)) (S754_zero false).
Proof. reflexivity. Qed.


Lemma Reflect_axis_mirror_witness :
  let D := normalize (Binary32.vec 4 (-4) (-21)) in
  Reflect D (Binary32.vec 0 1 0) = mkVec3f (x D) (SFopp (y D)) (z D).
Proof.
  cbv zeta.
  rewrite Reflect_axis_mirror; [reflexivity|cbn; auto|vm_compute; reflexivity].
Defined.
